(** * burner: subtitle selection, frame rendering and the burn loop

    A shallow embedding of [burner/burner.py] (class [Burner]) and the
    properties of its frame loop.

    Numbers.  Frame indices are [nat] ([range(frame_count)]), frame numbers
    are [Z] (Python [int]), times and the frame rate are [Q]: a Python float
    is read as the rational it denotes and products and quotients are exact.
    NaN and infinities are not represented.

    Effects.  [burn] talks to an encoder subprocess.  Its calls are recorded
    in a trace of events; calls that may raise inside the frame loop
    ([animations.pop], [ImageFont.truetype], [stdin.write], the division by
    the frame rate) return a [result]. *)

From Stdlib Require Import ZArith QArith Qround Lia Lqa.
From Stdlib Require Import List Sorted String Ascii Bool.
Import ListNotations.
Open Scope Z_scope.

Set Implicit Arguments.

(** ** Python builtins used by the source *)

Module Py.

Inductive exn : Type :=
| ZeroDivisionError
| BrokenPipeError
| OSError
| ValueError
| OtherError (msg : string).

Inductive result (A : Type) : Type :=
| Ok (a : A)
| Raise (e : exn).
Arguments Ok {A} a.
Arguments Raise {A} e.

(** [x < y] on floats, as a boolean. *)
Definition ltb (x y : Q) : bool := negb (Qle_bool y x).

(** [round(x)]: the nearest integer, a tie going to the even one. *)
Definition round (x : Q) : Z :=
  let f := Qfloor x in
  match ((x - inject_Z f) ?= (1 # 2))%Q with
  | Lt => f
  | Gt => f + 1
  | Eq => if Z.even f then f else f + 1
  end.

(** [int(x)]: truncation toward zero. *)
Definition int (x : Q) : Z := Z.quot (Qnum x) (Zpos (Qden x)).

(** [a / b] with a float divisor. *)
Definition truediv (a b : Q) : result Q :=
  if Qeq_bool b 0 then Raise ZeroDivisionError else Ok (a / b)%Q.

Section Max.
Variable A : Type.
Variable key : A -> Q.

(** The scan of [max(iterable, key=key)]: the running maximum is
    replaced only by an item whose key is strictly greater. *)
Fixpoint max_from (best : A) (rest : list A) : A :=
  match rest with
  | [] => best
  | x :: rest' =>
      if ltb (key best) (key x) then max_from x rest'
      else max_from best rest'
  end.

(** [max(iterable, key=key, default=None)]. *)
Definition max_default (l : list A) : option A :=
  match l with
  | [] => None
  | x :: rest => Some (max_from x rest)
  end.
End Max.

End Py.

Import Py.

(** ** Data *)

(** A subtitle entry: [token.text], [token.start]; it unpacks as
    [text, start = token].  Such a tuple of two fields is true in a
    condition, [None] is false. *)
Record Token : Type := mkToken { text : string; start : Q }.

(** What [Probe(video_path)] holds. *)
Record Probe : Type := mkProbe {
  size : nat * nat;          (* (width, height) *)
  center : Z * Z;
  fps : Q;
  frame_count : nat
}.

Section Selection.

Variable subtitles : list Token.
Variable probe : Probe.

(** [round(token.start * self.probe.fps)] *)
Definition start_frame (token : Token) : Z :=
  round (start token * fps probe).

(** The condition of the generator: [n >= round(token.start * fps)]. *)
Definition qualifies (n : nat) (token : Token) : bool :=
  Z.of_nat n >=? start_frame token.

(** [max((token for token in self.subtitles if ...), key=..., default=None)] *)
Definition select (n : nat) : option Token :=
  max_default start (filter (qualifies n) subtitles).

End Selection.

(** Entries in time order: each starts strictly before the ones after it. *)
Definition time_ordered (subs : list Token) : Prop :=
  StronglySorted (fun x y => (start x < start y)%Q) subs.

(** The fields of [SubtitleOptions] that [Burner] reads. *)
Module Options.
Record t (Color : Type) : Type := mk {
  font_path : string;
  font_size : Q;
  font_fill : Color;
  capitalize : bool;
  filter_alnum : bool;
  stroke_width : Z;
  stroke_fill : Color;
  render_offset : Q
}.
End Options.

(** The keyword arguments of [ImageDraw.text]. *)
Module Draw.
Record text_args (Color Font : Type) : Type := mk {
  xy : Z * Z;
  text : string;
  fill : Color;
  font : Font;
  anchor : string;
  language : string;
  stroke_width : Z;
  stroke_fill : Color
}.
End Draw.

(** A PIL image: mode, (width, height) and the pixel buffer, row by row. *)
Record Image : Type := mkImage {
  im_mode : string;
  im_size : nat * nat;
  im_data : list Byte.byte
}.

(** A numpy array of [uint8]: its shape and its buffer in C order. *)
Record ndarray : Type := mkArray {
  shape : list nat;
  buffer : list Byte.byte
}.

Module np.
(** [np.zeros(shape, dtype=np.uint8)] *)
Definition zeros (sh : list nat) : ndarray :=
  mkArray sh (repeat Byte.x00 (fold_right Nat.mul 1%nat sh)).

(** [np.array(img)] of an RGBA image: shape (height, width, 4). *)
Definition array (img : Image) : ndarray :=
  mkArray [snd (im_size img); fst (im_size img); 4%nat] (im_data img).

Definition tobytes (a : ndarray) : list Byte.byte := buffer a.
End np.

(** [Image.new(mode="RGBA", size=size)]: every pixel (0, 0, 0, 0). *)
Definition Image_new (mode : string) (sz : nat * nat) : Image :=
  mkImage mode sz (repeat Byte.x00 (snd sz * fst sz * 4)).

(** The transcript argument of the constructor, as its annotation
    [Optional[PathLike | RawTranscript]] has it. *)
Inductive Transcript (RawTranscript : Type) : Type :=
| PathArg (path : string)
| RawArg (raw : RawTranscript)
| NoneArg.
Arguments PathArg {RawTranscript} path.
Arguments RawArg {RawTranscript} raw.
Arguments NoneArg {RawTranscript}.

(** [isinstance(transcript, PathLike)]: the path, when the test holds. *)
Definition as_PathLike {R : Type} (t : Transcript R) : option string :=
  match t with PathArg path => Some path | _ => None end.

(** [type(transcript) == RawTranscript]: the structure, when the test holds. *)
Definition as_RawTranscript {R : Type} (t : Transcript R) : option R :=
  match t with RawArg raw => Some raw | _ => None end.

(** ** Calls to the outside world *)

Inductive event (RawTranscript : Type) : Type :=
| LoadFile (path : string)                       (* load_subtitles_from_file *)
| LoadRaw (raw : RawTranscript)        (* load_subtitles_from_raw_transcript *)
| Transcribe (video : string) (model : string)                 (* transcribe *)
| ProbeVideo (video : string)                                       (* Probe *)
| Popen (cmd : list string)                              (* subprocess.Popen *)
| PopCall (t : Q)                                          (* animations.pop *)
| StdinWrite (data : list Byte.byte)           (* ffmpeg_process.stdin.write *)
| StdinClose                                   (* ffmpeg_process.stdin.close *)
| ProcWait.                                           (* ffmpeg_process.wait *)
Arguments LoadFile {RawTranscript} path.
Arguments LoadRaw {RawTranscript} raw.
Arguments Transcribe {RawTranscript} video model.
Arguments ProbeVideo {RawTranscript} video.
Arguments Popen {RawTranscript} cmd.
Arguments PopCall {RawTranscript} t.
Arguments StdinWrite {RawTranscript} data.
Arguments StdinClose {RawTranscript}.
Arguments ProcWait {RawTranscript}.

(** A computation: it receives the trace so far and returns its outcome
    and the extended trace. *)
Module Run.
Section Monad.
Variable E : Type.

Definition M (A : Type) : Type := list E -> result A * list E.

Definition ret {A} (a : A) : M A := fun tr => (Ok a, tr).

Definition bind {A B} (c : M A) (k : A -> M B) : M B :=
  fun tr =>
    match c tr with
    | (Ok a, tr') => k a tr'
    | (Raise e, tr') => (Raise e, tr')
    end.

Definition lift {A} (r : result A) : M A := fun tr => (r, tr).

Definition emit (e : E) : M unit := fun tr => (Ok tt, tr ++ [e]).

(** [for n in items: body(n)]: an exception ends the loop. *)
Fixpoint for_each (items : list nat) (body : nat -> M unit) : M unit :=
  match items with
  | [] => ret tt
  | n :: rest => bind (body n) (fun _ => for_each rest body)
  end.

(** [range(n)] *)
Definition range (n : nat) : list nat := seq 0 n.

(** [try: body finally: cleanup]: the cleanup runs on both exits; the
    exception of the body, if any, is raised again after it. *)
Definition try_finally {A} (body : M A) (cleanup : M unit) : M A :=
  fun tr =>
    match body tr with
    | (r, tr') =>
        match cleanup tr' with
        | (Ok _, tr'') => (r, tr'')
        | (Raise e, tr'') => (Raise e, tr'')
        end
    end.
End Monad.
End Run.

Notation "x <- c ;; k" := (Run.bind c (fun x => k))
  (at level 61, c at next level, right associativity).

(** ** What [burner.py] imports

    The repository's modules [_utils], [animations], [transcription] and
    [probe]; of Python and its libraries [str.upper], [str] of a number,
    [ImageFont.truetype], the rasterizer behind [ImageDraw.text], and the
    state of the pipe to the encoder: whether a write raises, given the
    calls made so far. *)
Class Externals (Color Font RawTranscript : Type) : Type := {
  filter_alnum : string -> string;
  pop : Q -> result Q;
  load_subtitles_from_file : string -> result (list Token);
  load_subtitles_from_raw_transcript : RawTranscript -> result (list Token);
  transcribe : string -> string -> result (list Token);
  Probe_of_video : string -> result Probe;
  upper : string -> string;
  str_of_number : Q -> string;
  truetype : string -> Z -> result Font;
  draw_text : Draw.text_args Color Font -> Image -> list Byte.byte;
  pipe_error : list (event RawTranscript) -> list Byte.byte -> option exn
}.

(** ** The class [Burner] *)

Record Burner : Type := mkBurner {
  video_path : string;
  subtitles : list Token;
  probe : Probe
}.

Section BurnerMethods.

Context {Color Font RawTranscript : Type}.
Context {ext : Externals Color Font RawTranscript}.

Local Abbreviation Ev := (event RawTranscript).
Local Abbreviation M := (Run.M Ev).

(** A call of an imported function, recorded and then performed. *)
Definition call {A} (e : Ev) (r : result A) : M A :=
  _ <- Run.emit e ;; Run.lift r.

(** [Burner.__init__] *)
Definition __init__ (video : string) (transcript : Transcript RawTranscript)
    (whisper_model : string) : M Burner :=
  subs <- match as_PathLike transcript with
          | Some path =>                                        (* if *)
              call (LoadFile path) (load_subtitles_from_file path)
          | None =>
              match as_RawTranscript transcript with
              | Some raw =>                                   (* elif *)
                  call (LoadRaw raw) (load_subtitles_from_raw_transcript raw)
              | None =>                                       (* else *)
                  call (Transcribe video whisper_model)
                       (transcribe video whisper_model)
              end
          end ;;
  pr <- call (ProbeVideo video) (Probe_of_video video) ;;
  Run.ret (mkBurner video subs pr).

(** [Burner._get_text_image] *)
Definition _get_text_image (self : Burner) (text : string) (scale : Q)
    (options : Options.t Color) : M Image :=
  let text := if Options.filter_alnum options then filter_alnum text
              else text in
  let text := if Options.capitalize options then upper text else text in
  let image := Image_new "RGBA" (size (probe self)) in
  let font_size := int (Options.font_size options * scale) in
  font <- Run.lift (truetype (Options.font_path options) font_size) ;;
  let drawn :=
    draw_text
      (Draw.mk (center (probe self)) text (Options.font_fill options) font
               "mm" "en" (Options.stroke_width options)
               (Options.stroke_fill options))
      image in
  Run.ret (mkImage (im_mode image) (im_size image) drawn).

(** The argument list given to [subprocess.Popen]. *)
Definition ffmpeg_command (self : Burner) (out_path : string)
    (options : Options.t Color) : list string :=
  [ "ffmpeg";
    "-i";
    video_path self;
    "-f";
    "rawvideo";
    "-pix_fmt";
    "rgba";
    "-s";
    "1080x1920";
    "-framerate";
    str_of_number (fps (probe self));
    "-i";
    "-";
    "-filter_complex";
    "[1:v]setpts=PTS+" ++ str_of_number (Options.render_offset options)
      ++ "/TB[v1];[0:v][v1]overlay=0:0";
    "-map";
    "0:a";
    "-c:v";
    "libx264";
    "-c:a";
    "copy";
    "-loglevel";
    "error";
    out_path ]%string.

(** [blank_frame_bytes] *)
Definition blank_frame_bytes (self : Burner) : list Byte.byte :=
  np.tobytes
    (np.zeros [fst (size (probe self)); snd (size (probe self)); 4%nat]).

(** [ffmpeg_process.stdin.write(img_bytes)] *)
Definition stdin_write (data : list Byte.byte) : M unit :=
  fun tr =>
    match pipe_error tr data with
    | Some e => (Raise e, tr)
    | None => (Ok tt, tr ++ [StdinWrite data])
    end.

(** The bytes of frame [n]: the first half of the loop body. *)
Definition frame_bytes (self : Burner) (options : Options.t Color)
    (n : nat) : M (list Byte.byte) :=
  let subtitle_token := select (subtitles self) (probe self) n in
  match subtitle_token with
  | Some (mkToken text start) =>              (* if subtitle_token: *)
      let start_frame := round (start * fps (probe self)) in
      t <- Run.lift (truediv (inject_Z (Z.of_nat n - start_frame))
                             (fps (probe self))) ;;
      scale <- call (PopCall t) (pop t) ;;
      img <- _get_text_image self text scale options ;;
      Run.ret (np.tobytes (np.array img))
  | None => Run.ret (blank_frame_bytes self)                 (* else: *)
  end.

(** The body of [for n in range(self.probe.frame_count)]. *)
Definition loop_body (self : Burner) (options : Options.t Color)
    (n : nat) : M unit :=
  img_bytes <- frame_bytes self options n ;;
  stdin_write img_bytes.

(** The [try] block of [burn]. *)
Definition frame_loop (self : Burner) (options : Options.t Color) : M unit :=
  Run.for_each (Run.range (frame_count (probe self)))
               (loop_body self options).

(** The [finally] block of [burn]. *)
Definition cleanup : M unit :=
  _ <- Run.emit StdinClose ;; Run.emit ProcWait.

(** [Burner.burn] *)
Definition burn (self : Burner) (out_path : string)
    (options : Options.t Color) : M unit :=
  _ <- Run.emit (Popen (ffmpeg_command self out_path options)) ;;
  Run.try_finally (frame_loop self options) cleanup.

End BurnerMethods.

(** The loader calls of a trace, in order. *)
Definition is_loader_call {R : Type} (e : event R) : bool :=
  match e with
  | LoadFile _ | LoadRaw _ | Transcribe _ _ => true
  | _ => false
  end.

(** The events of the frame loop: calls of the curve and writes. *)
Definition is_frame_event {R : Type} (e : event R) : Prop :=
  match e with
  | PopCall _ | StdinWrite _ => True
  | _ => False
  end.

(** The data of the writes of a trace, in order. *)
Fixpoint writes {R : Type} (tr : list (event R)) : list (list Byte.byte) :=
  match tr with
  | [] => []
  | StdinWrite data :: tr' => data :: writes tr'
  | _ :: tr' => writes tr'
  end.

(** The times given to the animation curve in a trace, in order. *)
Fixpoint pop_times {R : Type} (tr : list (event R)) : list Q :=
  match tr with
  | [] => []
  | PopCall t :: tr' => t :: pop_times tr'
  | _ :: tr' => pop_times tr'
  end.

(** ** The encoder's command line

    ffmpeg reads its arguments from left to right: options apply to the next
    input ([-i url]) or, after the last input, to the output file, which is
    the last argument.  Every option of the command built here takes one
    value. *)
Record ffmpeg_file : Type := mkFile {
  file_options : list (string * string);
  file_url : string
}.

Fixpoint parse_ffmpeg_files (opts : list (string * string))
    (args : list string) : option (list ffmpeg_file) :=
  match args with
  | [] => None
  | [out] => Some [mkFile opts out]
  | flag :: value :: rest =>
      if String.eqb flag "-i" then
        option_map (cons (mkFile opts value)) (parse_ffmpeg_files [] rest)
      else parse_ffmpeg_files (opts ++ [(flag, value)]) rest
  end.

(** The inputs, in order, and the output of a command line. *)
Definition parse_ffmpeg (cmd : list string)
  : option (list ffmpeg_file * ffmpeg_file) :=
  match cmd with
  | [] => None
  | _program :: args =>
      match parse_ffmpeg_files [] args with
      | Some files =>
          match rev files with
          | out :: inputs => Some (rev inputs, out)
          | [] => None
          end
      | None => None
      end
  end.

(** ** What one run of the loop can do

    The outcomes of one iteration of the frame loop at frame [n], and of the
    loop over a list of frame indices, as relations between the events added
    to the trace and the result.  [loop_body_run] and [frame_loop_run] below
    show that the code does nothing else. *)
Section Runs.

Context {Color Font RawTranscript : Type}.
Context {ext : Externals Color Font RawTranscript}.

Variable self : Burner.
Variable options : Options.t Color.

(** [(n - start_frame) / self.probe.fps] *)
Definition elapsed (n : nat) (tok : Token) : Q :=
  (inject_Z (Z.of_nat n - start_frame (probe self) tok) / fps (probe self))%Q.

(** The text that is drawn. *)
Definition shown_text (txt : string) : string :=
  let txt := if Options.filter_alnum options then filter_alnum txt else txt in
  if Options.capitalize options then upper txt else txt.

(** The arguments of the call of [draw.text]. *)
Definition text_call (txt : string) (fnt : Font) : Draw.text_args Color Font :=
  Draw.mk (center (probe self)) (shown_text txt) (Options.font_fill options)
          fnt "mm" "en" (Options.stroke_width options)
          (Options.stroke_fill options).

(** The image returned when the font has been loaded. *)
Definition text_image (txt : string) (fnt : Font) : Image :=
  mkImage "RGBA" (size (probe self))
          (draw_text (text_call txt fnt)
                     (Image_new "RGBA" (size (probe self)))).

(** The font size asked of [ImageFont.truetype]. *)
Definition scaled_font_size (scale : Q) : Z :=
  int (Options.font_size options * scale).

(** [data] is what frame [n] sends to the encoder when nothing raises. *)
Inductive frame_data (n : nat) (data : list Byte.byte) : Prop :=
| blank_data :
    select (subtitles self) (probe self) n = None ->
    data = blank_frame_bytes self ->
    frame_data n data
| text_data tok scale fnt :
    select (subtitles self) (probe self) n = Some tok ->
    pop (elapsed n tok) = Ok scale ->
    truetype (Options.font_path options) (scaled_font_size scale) = Ok fnt ->
    data = np.tobytes (np.array (text_image (text tok) fnt)) ->
    frame_data n data.

Inductive body_run (n : nat)
  : list (event RawTranscript) -> list (event RawTranscript)
    -> result unit -> Prop :=
| blank_written tr :
    select (subtitles self) (probe self) n = None ->
    pipe_error tr (blank_frame_bytes self) = None ->
    body_run n tr [StdinWrite (blank_frame_bytes self)] (Ok tt)
| blank_write_failed tr e :
    select (subtitles self) (probe self) n = None ->
    pipe_error tr (blank_frame_bytes self) = Some e ->
    body_run n tr [] (Raise e)
| division_failed tr tok :
    select (subtitles self) (probe self) n = Some tok ->
    (fps (probe self) == 0)%Q ->
    body_run n tr [] (Raise ZeroDivisionError)
| pop_failed tr tok e :
    select (subtitles self) (probe self) n = Some tok ->
    ~ (fps (probe self) == 0)%Q ->
    pop (elapsed n tok) = Raise e ->
    body_run n tr [PopCall (elapsed n tok)] (Raise e)
| font_failed tr tok scale e :
    select (subtitles self) (probe self) n = Some tok ->
    ~ (fps (probe self) == 0)%Q ->
    pop (elapsed n tok) = Ok scale ->
    truetype (Options.font_path options) (scaled_font_size scale) = Raise e ->
    body_run n tr [PopCall (elapsed n tok)] (Raise e)
| text_write_failed tr tok scale fnt e :
    select (subtitles self) (probe self) n = Some tok ->
    ~ (fps (probe self) == 0)%Q ->
    pop (elapsed n tok) = Ok scale ->
    truetype (Options.font_path options) (scaled_font_size scale) = Ok fnt ->
    pipe_error (tr ++ [PopCall (elapsed n tok)])
               (np.tobytes (np.array (text_image (text tok) fnt))) = Some e ->
    body_run n tr [PopCall (elapsed n tok)] (Raise e)
| text_written tr tok scale fnt :
    select (subtitles self) (probe self) n = Some tok ->
    ~ (fps (probe self) == 0)%Q ->
    pop (elapsed n tok) = Ok scale ->
    truetype (Options.font_path options) (scaled_font_size scale) = Ok fnt ->
    pipe_error (tr ++ [PopCall (elapsed n tok)])
               (np.tobytes (np.array (text_image (text tok) fnt))) = None ->
    body_run n tr
      [PopCall (elapsed n tok);
       StdinWrite (np.tobytes (np.array (text_image (text tok) fnt)))]
      (Ok tt).

(** The loop stops at the first iteration that raises. *)
Inductive loop_run
  : list nat -> list (event RawTranscript) -> list (event RawTranscript)
    -> result unit -> Prop :=
| loop_done tr : loop_run [] tr [] (Ok tt)
| loop_raise n rest tr evs e :
    body_run n tr evs (Raise e) ->
    loop_run (n :: rest) tr evs (Raise e)
| loop_next n rest tr evs evs' r :
    body_run n tr evs (Ok tt) ->
    loop_run rest (tr ++ evs) evs' r ->
    loop_run (n :: rest) tr (evs ++ evs') r.

End Runs.

(** A scan that keeps the last entry seen: what "the most recently started
    entry" is for a sequence read in its own order. *)
Fixpoint last_from (current : Token) (rest : list Token) : Token :=
  match rest with
  | [] => current
  | t :: rest' => last_from t rest'
  end.

Definition last_started (subs : list Token) (pr : Probe) (n : nat)
  : option Token :=
  match filter (qualifies pr n) subs with
  | [] => None
  | t :: rest => Some (last_from t rest)
  end.

(** Whether frame [n] shows an entry. *)
Definition has_text (self : Burner) (n : nat) : bool :=
  match select (subtitles self) (probe self) n with
  | Some _ => true
  | None => false
  end.

(** ** A small instance

    A video of four frames of 2 x 3 pixels at one frame per second, three
    entries starting at 0 s, 1 s and 2 s, and stand-ins for what is
    imported: a font is its size, drawing leaves the canvas as it is. *)
Module Sample.

Definition three_subtitles : list Token :=
  [mkToken "a" 0; mkToken "b" 1; mkToken "c" 2].

Definition probe_1fps : Probe := mkProbe (2, 3)%nat (1, 1) 1 4.

Definition burner : Burner := mkBurner "in.mp4" three_subtitles probe_1fps.

Definition silent : Burner := mkBurner "in.mp4" [] probe_1fps.

Definition options : Options.t string :=
  Options.mk "font.ttf" 25 "white"%string true true 2 "black"%string 0.

Definition externals (curve : Q -> result Q)
    (pipe : list (event (list Token)) -> list Byte.byte -> option exn)
  : Externals string Z (list Token) :=
  {| filter_alnum := fun s => s;
     pop := curve;
     load_subtitles_from_file := fun _ => Ok three_subtitles;
     load_subtitles_from_raw_transcript := fun raw => Ok raw;
     transcribe := fun _ _ => Ok [];
     Probe_of_video := fun _ => Ok probe_1fps;
     upper := fun s => s;
     str_of_number := fun _ => "1.0"%string;
     truetype := fun _ sz => if 0 <? sz then Ok sz else Raise OSError;
     draw_text := fun _ img => im_data img;
     pipe_error := pipe |}.

(** A curve that is 1/2 everywhere and a pipe that takes every write. *)
Definition half : Q -> result Q := fun _ => Ok (1 # 2).
Definition open_pipe : list (event (list Token)) -> list Byte.byte
                       -> option exn := fun _ _ => None.

(** A pipe that breaks once two frames have been written. *)
Definition pipe_broken_after_two
  : list (event (list Token)) -> list Byte.byte -> option exn :=
  fun tr _ => if (2 <=? List.length (writes tr))%nat
              then Some BrokenPipeError else None.

End Sample.

(** ** Edge instances

    Two entries whose starts, 0.6 s and 1.2 s, round to the same frame at
    one frame per second; a probe with frame rate zero; a video that is not
    1080 x 1920. *)
Module Edge.

Definition early : Token := mkToken "early" (3 # 5).
Definition late : Token := mkToken "late" (6 # 5).
Definition close_pair : list Token := [early; late].

Definition probe_0fps : Probe := mkProbe (2, 3)%nat (1, 1) 0 4.

Definition stalled : Burner :=
  mkBurner "in.mp4" Sample.three_subtitles probe_0fps.

Definition probe_25fps : Probe := mkProbe (2, 3)%nat (1, 1) 25 100.

Definition burner_25fps : Burner := mkBurner "in.mp4" close_pair probe_25fps.

End Edge.

(** * Properties *)

(** ** The builtins *)

Module PyFacts.

Lemma ltb_lt (x y : Q) : ltb x y = true <-> (x < y)%Q.
Proof.
  unfold ltb. rewrite negb_true_iff.
  destruct (Qle_bool y x) eqn:E.
  - apply Qle_bool_iff in E. split; [discriminate | intros H].
    exfalso. exact (Qlt_not_le _ _ H E).
  - split; [intros _ | reflexivity].
    apply Qnot_le_lt. intros H. apply Qle_bool_iff in H. congruence.
Qed.

Lemma ltb_ge (x y : Q) : ltb x y = false <-> (y <= x)%Q.
Proof.
  unfold ltb. rewrite negb_false_iff. apply Qle_bool_iff.
Qed.

Lemma round_bounds (x : Q) : Qfloor x <= round x <= Qfloor x + 1.
Proof.
  unfold round.
  destruct (Qcompare _ _); [destruct (Z.even _) | | ]; lia.
Qed.

(** [round] never decreases when its argument grows. *)
Lemma round_monotone (x y : Q) : (x <= y)%Q -> round x <= round y.
Proof.
  intros Hxy.
  pose proof (Qfloor_resp_le _ _ Hxy) as Hf.
  destruct (Z.eq_dec (Qfloor x) (Qfloor y)) as [E | NE].
  - unfold round. rewrite <- E.
    destruct (Qcompare_spec (x - inject_Z (Qfloor x)) (1 # 2));
      destruct (Qcompare_spec (y - inject_Z (Qfloor x)) (1 # 2));
      try (destruct (Z.even (Qfloor x))); try lia; exfalso; lra.
  - pose proof (round_bounds x). pose proof (round_bounds y). lia.
Qed.

Lemma round_inject_Z (z : Z) : round (inject_Z z) = z.
Proof.
  unfold round. rewrite Qfloor_Z.
  destruct (Qcompare_spec (inject_Z z - inject_Z z) (1 # 2));
    [exfalso; lra | reflexivity | exfalso; lra].
Qed.

(** [int] is the floor of a number that is not negative. *)
Lemma int_floor (x : Q) : (0 <= x)%Q -> int x = Qfloor x.
Proof.
  destruct x as [num den]. unfold Qle, int, Qfloor. simpl. intros H.
  apply Z.quot_div_nonneg; lia.
Qed.

Example round_half_to_even :
  round (1 # 2) = 0 /\ round (3 # 2) = 2 /\ round (5 # 2) = 2
  /\ round (7 # 2) = 4 /\ round (- (1 # 2)) = 0 /\ round (- (3 # 2)) = -2
  /\ round (29 # 10) = 3 /\ round (- (29 # 10)) = -3.
Proof. repeat split; reflexivity. Qed.

Example int_toward_zero :
  int (25 # 2) = 12 /\ int (- (25 # 2)) = -12 /\ int (3 # 4) = 0.
Proof. repeat split; reflexivity. Qed.

End PyFacts.

(** ** [max] with a key *)

Section MaxFacts.

Variable A : Type.
Variable key : A -> Q.

(** The result of the scan splits the scanned items: the ones before it
    have a strictly smaller key, the ones after it a key not greater. *)
Lemma max_from_split (rest : list A) : forall best,
  exists before after,
    best :: rest = before ++ max_from key best rest :: after
    /\ Forall (fun x => (key x < key (max_from key best rest))%Q) before
    /\ Forall (fun x => (key x <= key (max_from key best rest))%Q) after.
Proof.
  induction rest as [| x rest IH]; intros best; simpl.
  - exists [], []. repeat split; constructor.
  - destruct (ltb (key best) (key x)) eqn:Hcmp.
    + apply PyFacts.ltb_lt in Hcmp.
      destruct (IH x) as (before & after & Heq & Hb & Ha).
      exists (best :: before), after. rewrite Heq at 1.
      repeat split; auto. constructor; auto.
      eapply Qlt_le_trans; [exact Hcmp |].
      assert (Hin : In x (before ++ max_from key x rest :: after)).
      { rewrite <- Heq. now left. }
      apply in_app_or in Hin. rewrite Forall_forall in Hb, Ha.
      destruct Hin as [Hin | [Hin | Hin]].
      * apply Qlt_le_weak. auto.
      * rewrite Hin. apply Qle_refl.
      * auto.
    + apply PyFacts.ltb_ge in Hcmp.
      destruct (IH best) as (before & after & Heq & Hb & Ha).
      remember (max_from key best rest) as m eqn:Hm. clear Hm.
      destruct before as [| b before]; simpl in Heq;
        injection Heq as Hbest Hrest.
      * subst m rest. exists [], (x :: after). simpl. repeat split; auto.
      * subst b rest.
        exists (best :: x :: before), after. simpl. repeat split; auto.
        inversion Hb as [| ? ? Hlt Hb']; subst.
        constructor; auto. constructor; auto.
        eapply Qle_lt_trans; eauto.
Qed.

Lemma max_default_none (l : list A) : max_default key l = None <-> l = [].
Proof. destruct l; simpl; split; congruence. Qed.

Lemma max_default_split (l : list A) (m : A) :
  max_default key l = Some m ->
  exists before after,
    l = before ++ m :: after
    /\ Forall (fun x => (key x < key m)%Q) before
    /\ Forall (fun x => (key x <= key m)%Q) after.
Proof.
  destruct l as [| x rest]; simpl; [discriminate |].
  intros [= <-]. apply max_from_split.
Qed.

End MaxFacts.

(** A split of a filtered list comes from a split of the list. *)
Lemma filter_split {A} (f : A -> bool) (l : list A) : forall l1 m l2,
  filter f l = l1 ++ m :: l2 ->
  exists s1 s2, l = s1 ++ m :: s2 /\ f m = true
                /\ filter f s1 = l1 /\ filter f s2 = l2.
Proof.
  induction l as [| x l IH]; intros l1 m l2 H; simpl in H.
  - destruct l1; discriminate.
  - destruct (f x) eqn:Hx.
    + destruct l1 as [| y l1]; simpl in H; injection H as -> H.
      * exists [], l. simpl. auto.
      * destruct (IH _ _ _ H) as (s1 & s2 & -> & Hm & H1 & H2).
        exists (y :: s1), s2. simpl. rewrite Hx, H1. auto.
    + destruct (IH _ _ _ H) as (s1 & s2 & -> & Hm & H1 & H2).
      exists (x :: s1), s2. simpl. rewrite Hx. auto.
Qed.

Lemma Forall_filter_imp {A} (f : A -> bool) (P : A -> Prop) (l : list A) :
  Forall P (filter f l) -> Forall (fun x => f x = true -> P x) l.
Proof.
  rewrite !Forall_forall. intros H x Hin Hf. apply H.
  apply filter_In. auto.
Qed.

(** ** Selection of the subtitle of a frame *)

Section SelectionFacts.

Variable subs : list Token.
Variable pr : Probe.

Lemma qualifies_iff (n : nat) (t : Token) :
  qualifies pr n t = true <-> start_frame pr t <= Z.of_nat n.
Proof. unfold qualifies. rewrite Z.geb_le. reflexivity. Qed.

(** No entry is selected exactly when no entry has started. *)
Lemma select_none_iff (n : nat) :
  select subs pr n = None <->
  (forall t, In t subs -> Z.of_nat n < start_frame pr t).
Proof.
  unfold select. rewrite max_default_none. split.
  - intros H t Hin.
    destruct (Z.lt_ge_cases (Z.of_nat n) (start_frame pr t)) as [|Hge]; auto.
    apply qualifies_iff in Hge.
    assert (Hf : In t (filter (qualifies pr n) subs))
      by (apply filter_In; auto).
    rewrite H in Hf. destruct Hf.
  - intros H. destruct (filter (qualifies pr n) subs) as [| t l] eqn:E; auto.
    assert (Hf : In t (filter (qualifies pr n) subs)) by (rewrite E; now left).
    apply filter_In in Hf. destruct Hf as [Hin Hq].
    apply qualifies_iff in Hq. specialize (H t Hin). lia.
Qed.

(** The selected entry has started; the started entries before it in the
    sequence start strictly earlier, those after it do not start later. *)
Lemma select_some_split (n : nat) (tok : Token) :
  select subs pr n = Some tok ->
  exists before after,
    subs = before ++ tok :: after
    /\ start_frame pr tok <= Z.of_nat n
    /\ Forall (fun t => start_frame pr t <= Z.of_nat n ->
                        (start t < start tok)%Q) before
    /\ Forall (fun t => start_frame pr t <= Z.of_nat n ->
                        (start t <= start tok)%Q) after.
Proof.
  unfold select. intros H.
  apply max_default_split in H. destruct H as (l1 & l2 & Heq & H1 & H2).
  apply filter_split in Heq.
  destruct Heq as (s1 & s2 & Hs & Hq & <- & <-).
  exists s1, s2. split; [exact Hs |]. split; [now apply qualifies_iff |].
  split; eapply Forall_impl; try (apply Forall_filter_imp; eassumption);
    simpl; intros t Ht Hle; apply Ht; now apply qualifies_iff.
Qed.

Lemma select_some_max (n : nat) (tok : Token) :
  select subs pr n = Some tok ->
  In tok subs /\ start_frame pr tok <= Z.of_nat n
  /\ (forall t, In t subs -> start_frame pr t <= Z.of_nat n ->
                (start t <= start tok)%Q).
Proof.
  intros H. destruct (select_some_split _ H) as (b & a & Hs & Hq & Hb & Ha).
  rewrite Forall_forall in Hb, Ha.
  split; [rewrite Hs; apply in_or_app; right; now left |].
  split; [exact Hq |].
  intros t Hin Hle. rewrite Hs in Hin. apply in_app_or in Hin.
  destruct Hin as [Hin | [<- | Hin]].
  - apply Qlt_le_weak. auto.
  - apply Qle_refl.
  - auto.
Qed.

Lemma select_some_exists (n : nat) (t : Token) :
  In t subs -> start_frame pr t <= Z.of_nat n ->
  exists tok, select subs pr n = Some tok.
Proof.
  intros Hin Hle. destruct (select subs pr n) as [tok |] eqn:E; eauto.
  rewrite select_none_iff in E. specialize (E t Hin). lia.
Qed.

End SelectionFacts.

Lemma time_ordered_split (l1 l2 : list Token) (x : Token) :
  time_ordered (l1 ++ x :: l2) ->
  Forall (fun y => (start y < start x)%Q) l1
  /\ Forall (fun y => (start x < start y)%Q) l2.
Proof.
  unfold time_ordered. induction l1 as [| y l1 IH]; simpl; intros H.
  - apply StronglySorted_inv in H. destruct H as [_ H]. split; auto.
  - apply StronglySorted_inv in H. destruct H as [Hs Hy].
    destruct (IH Hs) as [H1 H2]. split; auto.
    constructor; auto.
    rewrite Forall_forall in Hy. apply Hy. apply in_or_app. right. now left.
Qed.

(** A later start is not an earlier start frame, the frame rate not being
    negative. *)
Lemma start_frame_monotone (pr : Probe) (t u : Token) :
  (0 <= fps pr)%Q -> (start t <= start u)%Q ->
  start_frame pr t <= start_frame pr u.
Proof.
  intros Hfps Hle. unfold start_frame. apply PyFacts.round_monotone.
  apply Qmult_le_compat_r; assumption.
Qed.

(** C1 (amended).  At every frame index [n] the selected entry is one of
    the sequence, has its rounded start frame [round(start * fps)] at most
    [n], and no entry with rounded start frame at most [n] starts later; an
    entry is selected as soon as one has started.  For two consecutive
    entries [first], [second] of a sequence in strictly increasing time
    order, the frame rate not being negative: every frame index from the
    start frame of [first] up to, not including, the start frame of
    [second] selects [first]; every frame index at or after the start frame
    of [second] and before the start frame of every later entry selects
    [second]. *)
Theorem select_latest_started (subs : list Token) (pr : Probe) :
  (forall n tok,
      select subs pr n = Some tok ->
      In tok subs
      /\ start_frame pr tok <= Z.of_nat n
      /\ (forall t, In t subs -> start_frame pr t <= Z.of_nat n ->
                    (start t <= start tok)%Q))
  /\ (forall n t,
        In t subs -> start_frame pr t <= Z.of_nat n ->
        exists tok, select subs pr n = Some tok)
  /\ (forall pre first second post,
        subs = pre ++ first :: second :: post ->
        time_ordered subs ->
        (0 <= fps pr)%Q ->
        forall n,
          (start_frame pr first <= Z.of_nat n < start_frame pr second ->
           select subs pr n = Some first)
          /\ (start_frame pr second <= Z.of_nat n ->
              (forall later, In later post ->
                             Z.of_nat n < start_frame pr later) ->
              select subs pr n = Some second)).
Proof.
  split; [intros n tok; apply select_some_max |].
  split; [intros n t; apply select_some_exists |].
  intros pre first second post Hsubs Hsorted Hfps n.
  pose proof Hsorted as Hs1. rewrite Hsubs in Hs1.
  apply time_ordered_split in Hs1. destruct Hs1 as [Hpre1 Hpost1].
  pose proof Hsorted as Hs2. rewrite Hsubs in Hs2.
  change (pre ++ first :: second :: post)
    with (pre ++ [first] ++ second :: post) in Hs2.
  rewrite app_assoc in Hs2.
  apply time_ordered_split in Hs2. destruct Hs2 as [Hpre2 Hpost2].
  rewrite Forall_forall in Hpre1, Hpost1, Hpre2, Hpost2.
  assert (Hfirst : In first subs).
  { rewrite Hsubs. apply in_or_app. right. now left. }
  assert (Hsecond : In second subs).
  { rewrite Hsubs. apply in_or_app. right. right. now left. }
  split.
  - intros [Hlo Hhi].
    destruct (select_some_exists subs pr n first Hfirst Hlo) as [tok Htok].
    rewrite Htok. f_equal.
    destruct (select_some_max _ _ _ Htok) as (Hin & Hq & Hmax).
    specialize (Hmax first Hfirst Hlo).
    rewrite Hsubs in Hin. apply in_app_or in Hin.
    destruct Hin as [Hin | [Heq | Hin]].
    + exfalso. apply Hpre1 in Hin. exact (Qlt_not_le _ _ Hin Hmax).
    + now symmetry.
    + exfalso.
      assert (Hle : (start second <= start tok)%Q).
      { destruct Hin as [<- | Hin]; [apply Qle_refl |].
        apply Qlt_le_weak. apply Hpost2. exact Hin. }
      pose proof (start_frame_monotone pr second tok Hfps Hle). lia.
  - intros Hlo Hlater.
    destruct (select_some_exists subs pr n second Hsecond Hlo) as [tok Htok].
    rewrite Htok. f_equal.
    destruct (select_some_max _ _ _ Htok) as (Hin & Hq & Hmax).
    specialize (Hmax second Hsecond Hlo).
    rewrite Hsubs in Hin.
    change (pre ++ first :: second :: post)
      with (pre ++ [first] ++ second :: post) in Hin.
    rewrite app_assoc in Hin. apply in_app_or in Hin.
    destruct Hin as [Hin | [Heq | Hin]].
    + exfalso. apply Hpre2 in Hin. exact (Qlt_not_le _ _ Hin Hmax).
    + now symmetry.
    + exfalso. specialize (Hlater tok Hin). lia.
Qed.

(** C1 at work: frame 1 of [Sample.three_subtitles] shows the second entry,
    which has started while the third has not. *)
Lemma select_latest_started_witness :
  select Sample.three_subtitles Sample.probe_1fps 1 = Some (mkToken "b" 1).
Proof.
  refine (proj2
    (proj2 (proj2 (select_latest_started Sample.three_subtitles
                                         Sample.probe_1fps))
       [] (mkToken "a" 0) (mkToken "b" 1) [mkToken "c" 2]
       eq_refl _ _ 1%nat) _ _).
  - repeat constructor.
  - discriminate.
  - vm_compute. discriminate.
  - intros later [<- | []]. reflexivity.
Defined.

(** C1 as stated fails: [Sample.three_subtitles] is in strictly increasing
    time order, its first two entries are consecutive and the second starts
    later than the first; frame 2 is at or after the start frame of the
    second, and frame 2 selects the third entry. *)
Lemma select_second_counterexample :
  time_ordered Sample.three_subtitles
  /\ Sample.three_subtitles
     = [] ++ mkToken "a" 0 :: mkToken "b" 1 :: [mkToken "c" 2]
  /\ (start (mkToken "a" 0) < start (mkToken "b" 1))%Q
  /\ start_frame Sample.probe_1fps (mkToken "b" 1) <= Z.of_nat 2
  /\ select Sample.three_subtitles Sample.probe_1fps 2 = Some (mkToken "c" 2)
  /\ select Sample.three_subtitles Sample.probe_1fps 2 <> Some (mkToken "b" 1).
Proof.
  split; [repeat constructor |]. split; [reflexivity |].
  split; [reflexivity |]. split; [vm_compute; discriminate |].
  split; [reflexivity |]. vm_compute. discriminate.
Qed.

(** ** The methods, run *)

Section BurnFacts.

Context {Color Font RawTranscript : Type}.
Context {ext : Externals Color Font RawTranscript}.

Variable self : Burner.
Variable options : Options.t Color.

Local Abbreviation Ev := (event RawTranscript).

Lemma get_text_image_run (txt : string) (scale : Q) (tr : list Ev) :
  _get_text_image self txt scale options tr =
  (match truetype (Options.font_path options)
                  (scaled_font_size options scale) with
   | Ok fnt => Ok (text_image self options txt fnt)
   | Raise e => Raise e
   end, tr).
Proof.
  unfold _get_text_image, scaled_font_size, Run.bind, Run.lift, Run.ret.
  destruct (truetype _ _); reflexivity.
Qed.

(** One iteration does one of the things [body_run] lists. *)
Lemma loop_body_run (n : nat) (tr : list Ev) :
  exists evs r,
    loop_body self options n tr = (r, tr ++ evs)
    /\ body_run self options n tr evs r.
Proof.
  unfold loop_body, frame_bytes, Run.bind.
  destruct (select (subtitles self) (probe self) n) as [[txt st] |] eqn:Hsel.
  - unfold Run.lift at 1. unfold truediv.
    destruct (Qeq_bool (fps (probe self)) 0) eqn:Hfps.
    + apply Qeq_bool_iff in Hfps.
      exists [], (Raise ZeroDivisionError). rewrite app_nil_r.
      split; [reflexivity |]. eapply division_failed; eauto.
    + assert (Hnz : ~ (fps (probe self) == 0)%Q).
      { intros H. apply Qeq_bool_iff in H. congruence. }
      change (round (st * fps (probe self)))
        with (start_frame (probe self) (mkToken txt st)).
      change (inject_Z (Z.of_nat n - start_frame (probe self) (mkToken txt st))
              / fps (probe self))%Q
        with (elapsed self n (mkToken txt st)).
      unfold call, Run.bind, Run.emit, Run.lift.
      destruct (pop (elapsed self n (mkToken txt st))) as [scale | e] eqn:Hpop.
      * rewrite get_text_image_run.
        destruct (truetype (Options.font_path options)
                           (scaled_font_size options scale))
          as [fnt | e] eqn:Hfont.
        -- unfold Run.ret, stdin_write.
           destruct (pipe_error _ _) as [e |] eqn:Hpipe.
           ++ exists [PopCall (elapsed self n (mkToken txt st))], (Raise e).
              split; [reflexivity |].
              eapply text_write_failed with (tok := mkToken txt st); eauto.
           ++ eexists [PopCall (elapsed self n (mkToken txt st)); _], (Ok tt).
              split; [rewrite <- app_assoc; reflexivity |].
              eapply text_written with (tok := mkToken txt st); eauto.
        -- exists [PopCall (elapsed self n (mkToken txt st))], (Raise e).
           split; [reflexivity |].
           eapply font_failed with (tok := mkToken txt st); eauto.
      * exists [PopCall (elapsed self n (mkToken txt st))], (Raise e).
        split; [reflexivity |].
        eapply pop_failed with (tok := mkToken txt st); eauto.
  - unfold Run.ret, stdin_write.
    destruct (pipe_error tr (blank_frame_bytes self)) as [e |] eqn:Hpipe.
    + exists [], (Raise e). rewrite app_nil_r. split; [reflexivity |].
      now apply blank_write_failed.
    + eexists [_], (Ok tt). split; [reflexivity |].
      now apply blank_written.
Qed.

(** The loop over [items] does what [loop_run] allows. *)
Lemma for_each_run (items : list nat) : forall tr : list Ev,
  exists evs r,
    Run.for_each items (loop_body self options) tr = (r, tr ++ evs)
    /\ loop_run self options items tr evs r.
Proof.
  induction items as [| n rest IH]; intros tr; simpl.
  - exists [], (Ok tt). rewrite app_nil_r. split; [reflexivity | constructor].
  - unfold Run.bind.
    destruct (loop_body_run n tr) as (evs & r & Hrun & Hbody).
    rewrite Hrun. destruct r as [[] | e].
    + destruct (IH (tr ++ evs)) as (evs' & r' & Hrest & Hloop).
      exists (evs ++ evs'), r'. rewrite Hrest, app_assoc.
      split; [reflexivity |]. eapply loop_next; eauto.
    + exists evs, (Raise e). split; [reflexivity |].
      now apply loop_raise.
Qed.

Lemma frame_loop_run (tr : list Ev) :
  exists evs r,
    frame_loop self options tr = (r, tr ++ evs)
    /\ loop_run self options (Run.range (frame_count (probe self))) tr evs r.
Proof. apply for_each_run. Qed.

(** [burn] spawns the encoder, runs the loop, then closes and waits, and
    returns what the loop returned. *)
Lemma burn_run (out_path : string) (tr : list Ev) :
  exists evs r,
    burn self out_path options tr =
      (r, tr ++ Popen (ffmpeg_command self out_path options)
             :: evs ++ [StdinClose; ProcWait])
    /\ frame_loop self options
          (tr ++ [Popen (ffmpeg_command self out_path options)]) =
        (r, (tr ++ [Popen (ffmpeg_command self out_path options)]) ++ evs)
    /\ loop_run self options (Run.range (frame_count (probe self)))
                (tr ++ [Popen (ffmpeg_command self out_path options)]) evs r.
Proof.
  unfold burn, Run.bind, Run.emit at 1, Run.try_finally.
  destruct (frame_loop_run
              (tr ++ [Popen (ffmpeg_command self out_path options)]))
    as (evs & r & Hrun & Hloop).
  rewrite Hrun. unfold cleanup, Run.bind, Run.emit.
  exists evs, r. split; [| split; [reflexivity | exact Hloop]].
  f_equal. rewrite <- !app_assoc. reflexivity.
Qed.

(** *** What the events of a run are *)

Lemma writes_app (tr1 tr2 : list Ev) :
  writes (tr1 ++ tr2) = writes tr1 ++ writes tr2.
Proof.
  induction tr1 as [| e tr1 IH]; simpl; [reflexivity |].
  destruct e; simpl; rewrite ?IH; reflexivity.
Qed.

Lemma pop_times_app (tr1 tr2 : list Ev) :
  pop_times (tr1 ++ tr2) = pop_times tr1 ++ pop_times tr2.
Proof.
  induction tr1 as [| e tr1 IH]; simpl; [reflexivity |].
  destruct e; simpl; rewrite ?IH; reflexivity.
Qed.

(** An iteration that returns has written the data of its frame, once;
    an iteration that raises has written nothing. *)
Lemma body_run_writes (n : nat) (tr evs : list Ev) (r : result unit) :
  body_run self options n tr evs r ->
  match r with
  | Ok _ => exists data, writes evs = [data] /\ frame_data self options n data
  | Raise _ => writes evs = []
  end.
Proof.
  intros H. destruct H; simpl; try reflexivity.
  - eexists. split; [reflexivity |]. now apply blank_data.
  - eexists. split; [reflexivity |]. eapply text_data; eauto.
Qed.

(** The [k]-th write of the loop is the data of the [k]-th item. *)
Lemma loop_run_nth_write (items : list nat) (tr evs : list Ev)
    (r : result unit) :
  loop_run self options items tr evs r ->
  forall k data,
    nth_error (writes evs) k = Some data ->
    exists n, nth_error items k = Some n /\ frame_data self options n data.
Proof.
  induction 1 as [tr | n rest tr evs e Hbody
                  | n rest tr evs evs' r Hbody Hloop IH]; intros k data Hk.
  - destruct k; discriminate.
  - apply body_run_writes in Hbody. rewrite Hbody in Hk.
    destruct k; discriminate.
  - apply body_run_writes in Hbody. destruct Hbody as (d & Hw & Hd).
    rewrite writes_app, Hw in Hk. destruct k as [| k]; simpl in Hk.
    + injection Hk as <-. exists n. split; [reflexivity | exact Hd].
    + destruct (IH _ _ Hk) as (m & Hm & Hfd). exists m. split; assumption.
Qed.

(** A loop that returns has written once per item. *)
Lemma loop_run_write_count (items : list nat) (tr evs : list Ev)
    (r : result unit) :
  loop_run self options items tr evs r ->
  (List.length (writes evs) <= List.length items)%nat
  /\ (r = Ok tt -> List.length (writes evs) = List.length items).
Proof.
  induction 1 as [tr | n rest tr evs e Hbody
                  | n rest tr evs evs' r Hbody Hloop IH]; simpl.
  - split; [lia | reflexivity].
  - apply body_run_writes in Hbody. rewrite Hbody. simpl.
    split; [lia | discriminate].
  - apply body_run_writes in Hbody. destruct Hbody as (d & Hw & _).
    rewrite writes_app, Hw. simpl. destruct IH as [IH1 IH2].
    split; [lia | intros Hr; rewrite (IH2 Hr); reflexivity].
Qed.

Lemma loop_run_events (items : list nat) (tr evs : list Ev)
    (r : result unit) :
  loop_run self options items tr evs r -> Forall is_frame_event evs.
Proof.
  assert (Hbody : forall n tr evs r,
             body_run self options n tr evs r -> Forall is_frame_event evs).
  { intros n tr' evs' r' H. destruct H; repeat constructor. }
  induction 1; [constructor | eauto |].
  apply Forall_app. split; eauto.
Qed.

(** Every time given to the curve is the elapsed time of a selected
    entry, at one of the items. *)
Lemma loop_run_pop_times (items : list nat) (tr evs : list Ev)
    (r : result unit) :
  loop_run self options items tr evs r ->
  Forall (fun t => exists n tok,
              In n items
              /\ select (subtitles self) (probe self) n = Some tok
              /\ t = elapsed self n tok)
         (pop_times evs).
Proof.
  assert (Hbody : forall n tr evs r,
             body_run self options n tr evs r ->
             Forall (fun t => exists tok,
                         select (subtitles self) (probe self) n = Some tok
                         /\ t = elapsed self n tok)
                    (pop_times evs)).
  { intros n tr' evs' r' H. destruct H; simpl; repeat constructor; eauto. }
  induction 1 as [tr | n rest tr evs e Hb
                  | n rest tr evs evs' r Hb Hloop IH]; simpl.
  - constructor.
  - apply Hbody in Hb. eapply Forall_impl; [| exact Hb].
    intros t (tok & Hsel & Ht). exists n, tok. simpl. auto.
  - rewrite pop_times_app. apply Forall_app. split.
    + apply Hbody in Hb. eapply Forall_impl; [| exact Hb].
      intros t (tok & Hsel & Ht). exists n, tok. simpl. auto.
    + eapply Forall_impl; [| exact IH].
      intros t (m & tok & Hin & Hsel & Ht). exists m, tok. simpl. auto.
Qed.

Lemma nth_error_range (fc k n : nat) :
  nth_error (Run.range fc) k = Some n -> n = k /\ (k < fc)%nat.
Proof.
  unfold Run.range. intros H.
  assert (Hlt : (k < fc)%nat).
  { assert (Hn : nth_error (seq 0 fc) k <> None) by congruence.
    apply nth_error_Some in Hn. now rewrite length_seq in Hn. }
  split; [| exact Hlt].
  apply (nth_error_nth _ _ 0%nat) in H. rewrite seq_nth in H; lia.
Qed.

End BurnFacts.

(** ** The constructor *)

Section InitFacts.

Context {Color Font RawTranscript : Type}.
Context {ext : Externals Color Font RawTranscript}.


End InitFacts.

(** ** [burn] *)

Section BurnClaims.

Context {Color Font RawTranscript : Type}.
Context {ext : Externals Color Font RawTranscript}.

Variable self : Burner.
Variable options : Options.t Color.

Local Abbreviation Ev := (event RawTranscript).
Local Abbreviation width := (fst (size (probe self))).
Local Abbreviation height := (snd (size (probe self))).


Lemma blank_frame_bytes_zeros :
  blank_frame_bytes self = repeat Byte.x00 (width * height * 4).
Proof.
  unfold blank_frame_bytes, np.tobytes, np.zeros. simpl. f_equal. lia.
Qed.

(** With no subtitles the loop writes blank frames only. *)
Lemma loop_run_silent (items : list nat) (tr evs : list Ev)
    (r : result unit) :
  subtitles self = [] ->
  loop_run self options items tr evs r ->
  exists k,
    evs = repeat (StdinWrite (blank_frame_bytes self)) k
    /\ (k <= List.length items)%nat
    /\ (r = Ok tt -> k = List.length items).
Proof.
  intros Hempty.
  assert (Hsel : forall n tok,
             select (subtitles self) (probe self) n <> Some tok).
  { intros n tok. rewrite Hempty. discriminate. }
  induction 1 as [tr | n rest tr evs e Hb
                  | n rest tr evs evs' r Hb Hloop IH].
  - exists 0%nat. simpl. repeat split; auto.
  - exists 0%nat. simpl. inversion Hb; subst;
      try (exfalso; eapply Hsel; eassumption).
    repeat split; [lia | discriminate].
  - destruct IH as (k & -> & Hk & Hr).
    inversion Hb; subst; try (exfalso; eapply Hsel; eassumption).
    exists (S k). simpl. repeat split; [lia |].
    intros E. rewrite (Hr E). reflexivity.
Qed.


(** C7.  [burn] first spawns the encoder.  Read as ffmpeg reads it, the
    command has two inputs and one output: the video, without options; the
    pipe [-], declared as raw video in RGBA of 1080x1920 at the probed
    frame rate; the output path, with a filter that shifts the overlay by
    the render offset and lays it over the video at 0:0, the audio of the
    video mapped and copied, and libx264 for the video. *)
Theorem burn_spawns_encoder (out_path : string) (tr : list Ev) :
  (exists rest r,
      burn self out_path options tr =
        (r, tr ++ Popen (ffmpeg_command self out_path options) :: rest))
  /\ hd_error (ffmpeg_command self out_path options) = Some "ffmpeg"%string
  /\ parse_ffmpeg (ffmpeg_command self out_path options) =
     Some ([ mkFile [] (video_path self);
             mkFile [ ("-f", "rawvideo"); ("-pix_fmt", "rgba");
                      ("-s", "1080x1920");
                      ("-framerate", str_of_number (fps (probe self))) ]
                    "-" ],
           mkFile [ ("-filter_complex",
                     "[1:v]setpts=PTS+"
                       ++ str_of_number (Options.render_offset options)
                       ++ "/TB[v1];[0:v][v1]overlay=0:0");
                    ("-map", "0:a"); ("-c:v", "libx264"); ("-c:a", "copy");
                    ("-loglevel", "error") ]
                  out_path)%string.
Proof.
  split; [| split; reflexivity].
  destruct (burn_run self options out_path tr) as (evs & r & Hburn & _).
  eauto.
Qed.


(** The loop body at a frame with a selected entry. *)
Lemma loop_body_text (n : nat) (tok : Token) (tr : list Ev) :
  select (subtitles self) (probe self) n = Some tok ->
  ~ (fps (probe self) == 0)%Q ->
  loop_body self options n tr =
    match pop (elapsed self n tok) with
    | Raise e => (Raise e, tr ++ [PopCall (elapsed self n tok)])
    | Ok scale =>
        match truetype (Options.font_path options)
                       (scaled_font_size options scale) with
        | Raise e => (Raise e, tr ++ [PopCall (elapsed self n tok)])
        | Ok fnt =>
            stdin_write
              (np.tobytes (np.array (text_image self options (text tok) fnt)))
              (tr ++ [PopCall (elapsed self n tok)])
        end
    end.
Proof.
  intros Hsel Hfps.
  unfold loop_body, frame_bytes, Run.bind. rewrite Hsel.
  destruct tok as [txt st]. unfold Run.lift at 1. unfold truediv.
  destruct (Qeq_bool (fps (probe self)) 0) eqn:Hz.
  { apply Qeq_bool_iff in Hz. contradiction. }
  change (round (st * fps (probe self)))
    with (start_frame (probe self) (mkToken txt st)).
  change (inject_Z (Z.of_nat n - start_frame (probe self) (mkToken txt st))
          / fps (probe self))%Q
    with (elapsed self n (mkToken txt st)).
  unfold call, Run.bind, Run.emit, Run.lift.
  destruct (pop (elapsed self n (mkToken txt st))); [| reflexivity].
  rewrite get_text_image_run.
  destruct (truetype _ _); reflexivity.
Qed.

(** The times given to the curve in a run of [burn]. *)
Lemma burn_pop_times (out_path : string) (tr : list Ev) :
  exists ts,
    pop_times (snd (burn self out_path options tr)) = pop_times tr ++ ts
    /\ Forall
         (fun t => exists n tok,
              (n < frame_count (probe self))%nat
              /\ select (subtitles self) (probe self) n = Some tok
              /\ t = elapsed self n tok)
         ts.
Proof.
  destruct (burn_run self options out_path tr)
    as (evs & r & Hburn & _ & Hrun).
  exists (pop_times evs). rewrite Hburn. simpl.
  split.
  - rewrite pop_times_app. simpl. rewrite pop_times_app. simpl.
    rewrite app_nil_r. reflexivity.
  - apply loop_run_pop_times in Hrun.
    eapply Forall_impl; [| exact Hrun].
    intros t (n & tok & Hin & Hsel & Ht). exists n, tok.
    repeat split; auto.
    unfold Run.range in Hin. apply in_seq in Hin. lia.
Qed.


(** C9.  The blank buffer comes from an array of shape (width, height, 4),
    the bytes of a text frame from an array of shape (height, width, 4);
    both are [width * height * 4] bytes long, drawing not changing the size
    of the pixel buffer; so every write of a run of [burn] has this
    length, and a run that returns has written once per frame. *)
Theorem frame_length_constant
    (Hdraw : forall args img,
        List.length (draw_text args img) = List.length (im_data img))
    (out_path : string) (tr : list Ev) :
  shape (np.zeros [width; height; 4%nat]) = [width; height; 4%nat]
  /\ List.length (blank_frame_bytes self) = (width * height * 4)%nat
  /\ (forall txt fnt,
        shape (np.array (text_image self options txt fnt))
          = [height; width; 4%nat]
        /\ List.length (np.tobytes (np.array (text_image self options txt fnt)))
           = (width * height * 4)%nat)
  /\ exists ws,
       writes (snd (burn self out_path options tr)) = writes tr ++ ws
       /\ Forall (fun data => List.length data = (width * height * 4)%nat) ws
       /\ (fst (burn self out_path options tr) = Ok tt ->
           List.length ws = frame_count (probe self)).
Proof.
  assert (Hblank : List.length (blank_frame_bytes self)
                   = (width * height * 4)%nat).
  { rewrite blank_frame_bytes_zeros. apply repeat_length. }
  assert (Htext : forall txt fnt,
             List.length
               (np.tobytes (np.array (text_image self options txt fnt)))
             = (width * height * 4)%nat).
  { intros txt fnt. unfold np.tobytes, np.array, text_image. simpl.
    rewrite Hdraw. unfold Image_new. simpl. rewrite repeat_length. lia. }
  split; [reflexivity |]. split; [exact Hblank |].
  split; [intros txt fnt; split; [reflexivity | apply Htext] |].
  destruct (burn_run self options out_path tr)
    as (evs & r & Hburn & _ & Hrun).
  exists (writes evs). rewrite Hburn. simpl. split; [| split].
  - rewrite writes_app. simpl. rewrite writes_app. simpl.
    rewrite app_nil_r. reflexivity.
  - apply Forall_forall. intros data Hin.
    apply In_nth_error in Hin. destruct Hin as [k Hk].
    destruct (loop_run_nth_write Hrun _ Hk) as (n & _ & Hdata).
    destruct Hdata as [_ -> | tok scale fnt _ _ _ ->]; auto.
  - intros Hr. apply loop_run_write_count in Hrun.
    destruct Hrun as [_ Hcount]. rewrite (Hcount Hr).
    unfold Run.range. apply length_seq.
Qed.

(** C10.  A selected entry has its rounded start frame at or before the
    frame index, so with a positive frame rate its elapsed time is not
    negative; in a run of [burn] with a positive frame rate every time
    given to the animation curve is at least zero. *)
Theorem pop_time_nonnegative (Hfps : (0 < fps (probe self))%Q)
    (out_path : string) (tr : list Ev) :
  (forall n tok,
      select (subtitles self) (probe self) n = Some tok ->
      round (start tok * fps (probe self)) <= Z.of_nat n
      /\ (0 <= inject_Z (Z.of_nat n - round (start tok * fps (probe self)))
               / fps (probe self))%Q)
  /\ exists ts,
       pop_times (snd (burn self out_path options tr)) = pop_times tr ++ ts
       /\ Forall (fun t => (0 <= t)%Q) ts.
Proof.
  assert (Hsel : forall n tok,
             select (subtitles self) (probe self) n = Some tok ->
             round (start tok * fps (probe self)) <= Z.of_nat n
             /\ (0 <= elapsed self n tok)%Q).
  { intros n tok H. apply select_some_max in H. destruct H as (_ & Hle & _).
    split; [exact Hle |].
    unfold elapsed, Qdiv. apply Qmult_le_0_compat.
    - change 0%Q with (inject_Z 0). rewrite <- Zle_Qle. lia.
    - apply Qlt_le_weak, Qinv_lt_0_compat, Hfps. }
  split; [exact Hsel |].
  destruct (burn_pop_times out_path tr) as (ts & Heq & Hts).
  exists ts. split; [exact Heq |].
  eapply Forall_impl; [| exact Hts].
  intros t (n & tok & _ & Hs & ->). apply (Hsel n tok Hs).
Qed.

End BurnClaims.

(** ** The claims on the small instance *)

Module SampleFacts.

Import Sample.

Local Abbreviation good := (externals half open_pipe).
Local Abbreviation breaking := (externals half pipe_broken_after_two).
Local Abbreviation blank := (repeat Byte.x00 24).

(** A run that completes: three text frames, then the frame of the entry
    that started last, one second into its display; close and wait. *)
Example burn_completes :
  burn (ext := good) burner "out.mp4" options [] =
    (Ok tt,
     [ Popen (ffmpeg_command (ext := good) burner "out.mp4" options);
       PopCall 0; StdinWrite blank; PopCall 0; StdinWrite blank;
       PopCall 0; StdinWrite blank; PopCall 1; StdinWrite blank;
       StdinClose; ProcWait ]).
Proof. vm_compute. reflexivity. Qed.

(** A run whose third write raises: the exception reaches the caller
    after close and wait. *)
Example burn_broken_pipe :
  burn (ext := breaking) burner "out.mp4" options [] =
    (Raise BrokenPipeError,
     [ Popen (ffmpeg_command (ext := breaking) burner "out.mp4" options);
       PopCall 0; StdinWrite blank; PopCall 0; StdinWrite blank;
       PopCall 0;
       StdinClose; ProcWait ]).
Proof. vm_compute. reflexivity. Qed.






(** The theorem at work: every frame is 24 bytes. *)
Lemma frame_length_constant_witness :
  exists ws,
    writes (snd (burn (ext := good) burner "out.mp4" options [])) = [] ++ ws
    /\ Forall (fun data => List.length data = 24%nat) ws
    /\ (fst (burn (ext := good) burner "out.mp4" options []) = Ok tt ->
        List.length ws = 4%nat).
Proof.
  refine (proj2 (proj2 (proj2
    (frame_length_constant (ext := good) burner options _ "out.mp4" [])))).
  intros args img. reflexivity.
Defined.

(** The theorem at work at one frame per second. *)
Lemma pop_time_nonnegative_witness :
  exists ts,
    pop_times (snd (burn (ext := good) burner "out.mp4" options [])) = [] ++ ts
    /\ Forall (fun t => (0 <= t)%Q) ts.
Proof.
  refine (proj2
    (pop_time_nonnegative (ext := good) burner options _ "out.mp4" [])).
  reflexivity.
Defined.

End SampleFacts.


(** * Further properties of the code *)

(** ** More on the builtins *)

Lemma round_compat (x y : Q) : (x == y)%Q -> round x = round y.
Proof.
  intros H. apply Z.le_antisymm; apply PyFacts.round_monotone;
    rewrite H; apply Qle_refl.
Qed.

(** [round] is at most one half away from its argument. *)
Lemma round_error (x : Q) :
  (x - (1 # 2) <= inject_Z (round x) /\ inject_Z (round x) <= x + (1 # 2))%Q.
Proof.
  unfold round.
  pose proof (Qfloor_le x) as Hlo. pose proof (Qlt_floor x) as Hhi.
  rewrite inject_Z_plus in Hhi. change (inject_Z 1) with 1%Q in Hhi.
  destruct (Qcompare_spec (x - inject_Z (Qfloor x)) (1 # 2));
    try (destruct (Z.even (Qfloor x)));
    rewrite ?inject_Z_plus; change (inject_Z 1) with 1%Q; split; lra.
Qed.

Lemma int_monotone_nonneg (x y : Q) :
  (0 <= x)%Q -> (x <= y)%Q -> int x <= int y.
Proof.
  intros Hx Hxy.
  rewrite (PyFacts.int_floor Hx), (PyFacts.int_floor (Qle_trans _ _ _ Hx Hxy)).
  now apply Qfloor_resp_le.
Qed.

Lemma int_of_integer (x : Q) (z : Z) : (x == inject_Z z)%Q -> int x = z.
Proof.
  destruct x as [num den]. unfold Qeq, int. simpl. intros H.
  rewrite Z.mul_1_r in H. rewrite H. apply Z.quot_mul. discriminate.
Qed.

(** ** More on the selection *)

Section SelectionMore.

Variable subs : list Token.
Variable pr : Probe.

(** Among the started entries with the greatest start time the selection is
    the one that comes first in the sequence: the started entries before
    the selected one start strictly earlier, those after it not later. *)
Theorem select_first_among_latest (n : nat) (tok : Token) :
  select subs pr n = Some tok ->
  exists i,
    nth_error subs i = Some tok
    /\ (forall j t, nth_error subs j = Some t ->
                    start_frame pr t <= Z.of_nat n ->
                    ((j < i)%nat -> (start t < start tok)%Q)
                    /\ ((i < j)%nat -> (start t <= start tok)%Q)).
Proof.
  intros H. apply select_some_split in H.
  destruct H as (before & after & Hs & _ & Hb & Ha).
  rewrite Forall_forall in Hb, Ha.
  exists (List.length before). split.
  - rewrite Hs, nth_error_app2, Nat.sub_diag by lia. reflexivity.
  - intros j t Hj Hq. split; intros Hlt.
    + apply Hb; auto. rewrite Hs, nth_error_app1 in Hj by exact Hlt.
      eapply nth_error_In; eauto.
    + apply Ha; auto. rewrite Hs, nth_error_app2 in Hj by lia.
      destruct (j - List.length before)%nat as [| k] eqn:E; [lia |].
      simpl in Hj. eapply nth_error_In; eauto.
Qed.

(** Once an entry is shown the frame is never blank again, and the start
    time of the shown entry never decreases from one frame to a later one;
    so the blank frames are the first frames of the video. *)
Theorem selection_never_goes_back (n m : nat) :
  (n <= m)%nat ->
  (forall tok, select subs pr n = Some tok ->
               exists tok', select subs pr m = Some tok'
                            /\ (start tok <= start tok')%Q)
  /\ (select subs pr m = None -> select subs pr n = None).
Proof.
  intros Hnm.
  assert (Hfwd : forall tok, select subs pr n = Some tok ->
                   exists tok', select subs pr m = Some tok'
                                /\ (start tok <= start tok')%Q).
  { intros tok H. apply select_some_max in H. destruct H as (Hin & Hq & _).
    assert (Hqm : start_frame pr tok <= Z.of_nat m) by lia.
    destruct (select_some_exists subs pr m tok Hin Hqm) as [tok' Hsel].
    exists tok'. split; [exact Hsel |].
    apply select_some_max in Hsel. destruct Hsel as (_ & _ & Hmax). auto. }
  split; [exact Hfwd |].
  intros Hnone. destruct (select subs pr n) as [tok |] eqn:E; [| reflexivity].
  destruct (Hfwd tok eq_refl) as (tok' & Hsel & _). congruence.
Qed.

(** An entry is never shown when an entry that starts later has a rounded
    start frame that is not later. *)
Theorem overtaken_entry_never_selected (a b : Token) (n : nat) :
  In b subs ->
  (start a < start b)%Q ->
  start_frame pr b <= start_frame pr a ->
  select subs pr n <> Some a.
Proof.
  intros Hb Hlt Hframe Hsel.
  apply select_some_max in Hsel. destruct Hsel as (_ & Hq & Hmax).
  assert (Hqb : start_frame pr b <= Z.of_nat n) by lia.
  specialize (Hmax b Hb Hqb). exact (Qlt_not_le _ _ Hlt Hmax).
Qed.

(** The order of the sequence does not matter when no two entries have the
    same start time: a sequence with the same entries selects the same
    entry at every frame. *)
Theorem select_order_irrelevant (subs' : list Token) (n : nat) :
  (forall t, In t subs <-> In t subs') ->
  (forall t u, In t subs -> In u subs -> (start t == start u)%Q -> t = u) ->
  select subs pr n = select subs' pr n.
Proof.
  intros Hsame Hdistinct.
  destruct (select subs pr n) as [t |] eqn:E1;
    destruct (select subs' pr n) as [u |] eqn:E2; auto.
  - apply select_some_max in E1. destruct E1 as (Hin1 & Hq1 & Hmax1).
    apply select_some_max in E2. destruct E2 as (Hin2 & Hq2 & Hmax2).
    apply Hsame in Hin2. f_equal. apply Hdistinct; auto.
    apply Qle_antisym; [apply Hmax2; auto; now apply Hsame | apply Hmax1; auto].
  - exfalso. apply select_some_max in E1. destruct E1 as (Hin1 & Hq1 & _).
    rewrite select_none_iff in E2. apply Hsame in Hin1.
    specialize (E2 t Hin1). lia.
  - exfalso. apply select_some_max in E2. destruct E2 as (Hin2 & Hq2 & _).
    rewrite select_none_iff in E1. apply Hsame in Hin2.
    specialize (E1 u Hin2). lia.
Qed.

(** The rounded start frame of an entry is within half a frame of its start
    time counted in frames. *)
Theorem start_frame_within_half_frame (tok : Token) :
  (start tok * fps pr - (1 # 2) <= inject_Z (start_frame pr tok)
   /\ inject_Z (start_frame pr tok) <= start tok * fps pr + (1 # 2))%Q.
Proof. unfold start_frame. apply round_error. Qed.

End SelectionMore.

(** Filtering keeps a sequence in time order. *)
Lemma time_ordered_filter (f : Token -> bool) (l : list Token) :
  time_ordered l -> time_ordered (filter f l).
Proof.
  unfold time_ordered. induction l as [| x l IH]; simpl; intros H.
  - constructor.
  - apply StronglySorted_inv in H. destruct H as [Hs Hx].
    destruct (f x); [| auto].
    constructor; [auto |].
    rewrite Forall_forall in *. intros y Hy. apply Hx.
    apply filter_In in Hy. tauto.
Qed.

Lemma max_from_time_ordered (rest : list Token) : forall t,
  time_ordered (t :: rest) -> max_from start t rest = last_from t rest.
Proof.
  induction rest as [| u rest IH]; intros t H; simpl; [reflexivity |].
  apply StronglySorted_inv in H. destruct H as [Hs Ht].
  inversion Ht as [| ? ? Hlt _]; subst.
  apply PyFacts.ltb_lt in Hlt. rewrite Hlt. apply IH. exact Hs.
Qed.

(** On a sequence in strictly increasing time order the selection is the
    last entry of the sequence that has started, whatever the frame rate. *)
Theorem select_is_last_started (subs : list Token) (pr : Probe) (n : nat) :
  time_ordered subs ->
  select subs pr n = last_started subs pr n.
Proof.
  intros H. unfold select, last_started, max_default.
  apply (time_ordered_filter (qualifies pr n)) in H.
  destruct (filter (qualifies pr n) subs) as [| t rest]; [reflexivity |].
  f_equal. now apply max_from_time_ordered.
Qed.

(** ** More on the frame loop *)

Section BurnMore.

Context {Color Font RawTranscript : Type}.
Context {ext : Externals Color Font RawTranscript}.

Variable self : Burner.
Variable options : Options.t Color.

Local Abbreviation Ev := (event RawTranscript).
Local Abbreviation width := (fst (size (probe self))).
Local Abbreviation height := (snd (size (probe self))).

(** A loop that raises has written fewer frames than it was given. *)
Lemma loop_run_raise_count (items : list nat) (tr evs : list Ev)
    (r : result unit) :
  loop_run self options items tr evs r ->
  forall e, r = Raise e ->
            (List.length (writes evs) < List.length items)%nat.
Proof.
  induction 1 as [tr | n rest tr evs e' Hbody
                  | n rest tr evs evs' r Hbody Hloop IH]; intros e Hr; simpl.
  - discriminate.
  - apply body_run_writes in Hbody. rewrite Hbody. simpl. lia.
  - apply body_run_writes in Hbody. destruct Hbody as (d & Hw & _).
    rewrite writes_app, Hw. simpl. specialize (IH e Hr). lia.
Qed.

(** A loop that returns has called the curve once per item with text. *)
Lemma loop_run_pop_count (items : list nat) (tr evs : list Ev)
    (r : result unit) :
  loop_run self options items tr evs r ->
  (r = Ok tt ->
   List.length (pop_times evs) = List.length (filter (has_text self) items))
  /\ (List.length (pop_times evs)
      <= List.length (filter (has_text self) items))%nat.
Proof.
  induction 1 as [tr | n rest tr evs e' Hbody
                  | n rest tr evs evs' r Hbody Hloop IH]; simpl.
  - split; [reflexivity | lia].
  - split; [discriminate |]. unfold has_text.
    inversion Hbody; subst; simpl;
      match goal with
      | H : select _ _ _ = _ |- _ => rewrite H
      end; simpl; lia.
  - destruct IH as [IH1 IH2]. rewrite pop_times_app, length_app.
    remember (has_text self n) as shown eqn:Hshown. unfold has_text in Hshown.
    inversion Hbody; subst;
      match goal with
      | H : select _ _ _ = _ |- _ => rewrite H
      end; simpl; (split; [intros Hr; rewrite (IH1 Hr); reflexivity | lia]).
Qed.

(** Where an exception of the loop comes from. *)
Lemma loop_run_exception_origin (items : list nat) (tr evs : list Ev)
    (r : result unit) :
  loop_run self options items tr evs r ->
  forall e, r = Raise e ->
    (e = ZeroDivisionError /\ (fps (probe self) == 0)%Q
     /\ exists n, has_text self n = true)
    \/ (exists t, pop t = Raise e)
    \/ (exists size, truetype (Options.font_path options) size = Raise e)
    \/ (exists tr' data, pipe_error tr' data = Some e).
Proof.
  induction 1 as [tr | n rest tr evs e' Hbody
                  | n rest tr evs evs' r Hbody Hloop IH]; intros e Hr.
  - discriminate.
  - injection Hr as ->. inversion Hbody; subst; eauto 6.
    left. repeat split; auto. exists n. unfold has_text.
    match goal with H : select _ _ _ = _ |- _ => rewrite H end. reflexivity.
  - eauto.
Qed.




(** With a frame rate of zero every entry has start frame 0, so a video with
    at least one frame and one entry raises [ZeroDivisionError] at its first
    frame: nothing is written, the curve is not called, and the encoder is
    closed and waited on. *)
Theorem burn_zero_frame_rate (out_path : string) (tr : list Ev) :
  (fps (probe self) == 0)%Q ->
  subtitles self <> [] ->
  (0 < frame_count (probe self))%nat ->
  burn self out_path options tr =
    (Raise ZeroDivisionError,
     tr ++ [Popen (ffmpeg_command self out_path options);
            StdinClose; ProcWait]).
Proof.
  intros Hfps Hsubs Hfc.
  assert (Hsel : exists tok,
             select (subtitles self) (probe self) 0 = Some tok).
  { destruct (subtitles self) as [| t rest] eqn:E; [congruence |].
    rewrite <- E. apply (select_some_exists _ _ 0%nat t).
    - rewrite E. now left.
    - unfold start_frame.
      rewrite (round_compat (x := start t * fps (probe self))
                            (y := inject_Z 0)).
      + rewrite PyFacts.round_inject_Z. simpl. lia.
      + rewrite Hfps. ring. }
  destruct Hsel as [[txt st] Hsel].
  unfold burn, frame_loop, Run.range.
  destruct (frame_count (probe self)) as [| k]; [lia |].
  unfold Run.bind at 1. unfold Run.emit at 1. unfold Run.try_finally.
  simpl Run.for_each. unfold Run.bind at 1. unfold loop_body at 1.
  unfold Run.bind at 1. unfold frame_bytes. rewrite Hsel.
  unfold Run.bind at 1. unfold Run.lift at 1. unfold truediv.
  apply Qeq_bool_iff in Hfps. rewrite Hfps.
  unfold cleanup, Run.bind, Run.emit. rewrite <- !app_assoc. reflexivity.
Qed.



(** The lengths of the writes of a run of [burn]. *)
Lemma burn_write_lengths
    (Hdraw : forall args img,
        List.length (draw_text args img) = List.length (im_data img))
    (out_path : string) (tr : list Ev) :
  exists ws,
    writes (snd (burn self out_path options tr)) = writes tr ++ ws
    /\ Forall (fun data => List.length data = (width * height * 4)%nat) ws.
Proof.
  destruct (burn_run self options out_path tr)
    as (evs & r & Hburn & _ & Hrun).
  exists (writes evs). rewrite Hburn. simpl. split.
  - rewrite writes_app. simpl. rewrite writes_app. simpl.
    rewrite app_nil_r. reflexivity.
  - apply Forall_forall. intros data Hin.
    apply In_nth_error in Hin. destruct Hin as [k Hk].
    destruct (loop_run_nth_write Hrun _ Hk) as (n & _ & Hdata).
    destruct Hdata as [_ -> | tok scale fnt _ _ _ ->].
    + rewrite blank_frame_bytes_zeros. apply repeat_length.
    + unfold np.tobytes, np.array, text_image. simpl.
      rewrite Hdraw. unfold Image_new. simpl. rewrite repeat_length. lia.
Qed.

(** The encoder is told [-s 1080x1920] whatever the probed size is, while
    each frame written has the probed size: a write has the length of one
    RGBA frame of 1080 x 1920 exactly when the probed width times the probed
    height is 1080 times 1920. *)
Theorem frame_size_and_declared_geometry
    (Hdraw : forall args img,
        List.length (draw_text args img) = List.length (im_data img))
    (out_path : string) (tr : list Ev) :
  nth_error (ffmpeg_command self out_path options) 7 = Some "-s"%string
  /\ nth_error (ffmpeg_command self out_path options) 8
     = Some "1080x1920"%string
  /\ exists ws,
       writes (snd (burn self out_path options tr)) = writes tr ++ ws
       /\ Forall (fun data =>
                    Z.of_nat (List.length data) = 1080 * 1920 * 4
                    <-> Z.of_nat width * Z.of_nat height = 1080 * 1920)
                 ws.
Proof.
  split; [reflexivity |]. split; [reflexivity |].
  destruct (burn_write_lengths Hdraw out_path tr) as (ws & Heq & Hlen).
  exists ws. split; [exact Heq |].
  eapply Forall_impl; [| exact Hlen].
  intros data ->. rewrite !Nat2Z.inj_mul. simpl Z.of_nat. lia.
Qed.

End BurnMore.

(** ** The further properties on the instances *)

Module MoreFacts.

Import Sample.

Local Abbreviation good := (externals half open_pipe).
Local Abbreviation breaking := (externals half pipe_broken_after_two).

(** Frame 1 of the sample shows its second entry, the one at index 1. *)
Lemma select_first_among_latest_witness :
  exists i,
    nth_error three_subtitles i = Some (mkToken "b" 1)
    /\ (forall j t, nth_error three_subtitles j = Some t ->
                    start_frame probe_1fps t <= Z.of_nat 1 ->
                    ((j < i)%nat -> (start t < start (mkToken "b" 1))%Q)
                    /\ ((i < j)%nat -> (start t <= start (mkToken "b" 1))%Q)).
Proof.
  refine (select_first_among_latest three_subtitles probe_1fps 1 _).
  reflexivity.
Defined.

(** From frame 1 to frame 3 of the sample the shown entry moves on. *)
Lemma selection_never_goes_back_witness :
  exists tok', select three_subtitles probe_1fps 3 = Some tok'
               /\ (start (mkToken "b" 1) <= start tok')%Q.
Proof.
  refine (proj1 (selection_never_goes_back three_subtitles probe_1fps
                   (n := 1) (m := 3) _) (mkToken "b" 1) _).
  - lia.
  - reflexivity.
Defined.

(** At one frame per second an entry at 0.6 s is never shown when the next
    one starts at 1.2 s: both start at frame 1. *)
Lemma overtaken_entry_never_selected_witness :
  select Edge.close_pair probe_1fps 1 <> Some Edge.early.
Proof.
  refine (overtaken_entry_never_selected Edge.close_pair probe_1fps
            (a := Edge.early) Edge.late 1 _ _ _).
  - simpl. auto.
  - reflexivity.
  - vm_compute. discriminate.
Defined.

(** The sample read backwards shows the same entry at frame 1. *)
Lemma select_order_irrelevant_witness :
  select three_subtitles probe_1fps 1
  = select (rev three_subtitles) probe_1fps 1.
Proof.
  refine (select_order_irrelevant three_subtitles probe_1fps
            (rev three_subtitles) 1 _ _).
  - intros t. simpl. tauto.
  - intros t u [<- | [<- | [<- | []]]] [<- | [<- | [<- | []]]] H;
      try reflexivity; vm_compute in H; discriminate.
Defined.

(** Frame 1 of the sample, which is in time order. *)
Lemma select_is_last_started_witness :
  select three_subtitles probe_1fps 1
  = last_started three_subtitles probe_1fps 1.
Proof.
  refine (select_is_last_started probe_1fps 1 _).
  repeat constructor.
Defined.




(** The sample at frame rate zero. *)
Lemma burn_zero_frame_rate_witness :
  burn (ext := good) Edge.stalled "out.mp4" options [] =
    (Raise ZeroDivisionError,
     [] ++ [Popen (ffmpeg_command (ext := good) Edge.stalled "out.mp4" options);
            StdinClose; ProcWait]).
Proof.
  refine (burn_zero_frame_rate (ext := good) Edge.stalled options "out.mp4"
            [] _ _ _).
  - reflexivity.
  - discriminate.
  - simpl. lia.
Defined.



(** The sample is 2 x 3 pixels: no write has the declared frame size. *)
Lemma frame_size_and_declared_geometry_witness :
  exists ws,
    writes (snd (burn (ext := good) burner "out.mp4" options [])) = [] ++ ws
    /\ Forall (fun data =>
                 Z.of_nat (List.length data) = 1080 * 1920 * 4
                 <-> Z.of_nat 2 * Z.of_nat 3 = 1080 * 1920)
              ws.
Proof.
  refine (proj2 (proj2
    (frame_size_and_declared_geometry (ext := good) burner options _
       "out.mp4" []))).
  intros args img. reflexivity.
Defined.

End MoreFacts.
